(** * polyglot_ast: the [TestSamples/export_x.c] exchange harness

    The sample is one C function, [main], that makes three calls into the
    polyglot embedding API declared by [graalvm/llvm/polyglot.h]:
    [polyglot_export], [polyglot_eval_file] and [polyglot_as_i8].  The API
    lives outside the sample, so the harness is embedded as a program over
    these three calls, and is run against an arbitrary [Runtime] that
    answers them.  A second part gives the runtime that the specification
    describes (export namespace, artifact store, opaque handles) and
    studies the harness on top of it. *)

From stdpp Require Import base option list strings gmap.
From Stdlib Require Import ZArith Lia.

Local Open Scope string_scope.
Local Open Scope Z_scope.

(** ** Native scalars *)

Module Int8.

Definition min_signed : Z := -128.
Definition max_signed : Z := 127.
Definition modulus : Z := 256.

(** The values an [int8_t] can hold. *)
Definition in_range (z : Z) : Prop := min_signed ≤ z ≤ max_signed.

Definition in_rangeb (z : Z) : bool :=
  (min_signed <=? z) && (z <=? max_signed).

(** Conversion of a C integer to [int8_t]: two's complement wrap-around. *)
Definition wrap (z : Z) : Z :=
  (z - min_signed) `mod` modulus + min_signed.

End Int8.

(** ** The embedding API as seen from the harness *)

(** [void*] results of the API are addresses. *)
Definition handle : Type := N.

(** The abstract failure kinds of the exchange protocol. *)
Inductive error : Type :=
| NamespaceCollisionError
| ArtifactResolutionError
| DialectEvaluationError
| RepresentationMismatchError.

#[global] Instance error_eq_dec : EqDecision error.
Proof. solve_decision. Defined.

(** One call across the embedding boundary, with its actual arguments. *)
Inductive call : Type :=
| CallExport (name : string) (value : Z)
| CallEvalFile (dialect path : string)
| CallAsI8 (h : handle).

#[global] Instance call_eq_dec : EqDecision call.
Proof. solve_decision. Defined.

Definition is_export (c : call) : bool :=
  match c with CallExport _ _ => true | _ => false end.

Definition is_as_i8 (c : call) : bool :=
  match c with CallAsI8 _ => true | _ => false end.

(** Programs over the API: a computation either returns, or performs one of
    the three calls and continues with its answer.  There is no constructor
    for catching a failure, for looping or for output: the harness has none
    of them. *)
Inductive Prog (A : Type) : Type :=
| Ret (a : A)
| Export (name : string) (value : Z) (k : Prog A)
| EvalFile (dialect path : string) (k : handle → Prog A)
| AsI8 (h : handle) (k : Z → Prog A).

Arguments Ret {A} a.
Arguments Export {A} name value k.
Arguments EvalFile {A} dialect path k.
Arguments AsI8 {A} h k.

Fixpoint prog_bind {A B} (p : Prog A) (f : A → Prog B) : Prog B :=
  match p with
  | Ret a => f a
  | Export n v k => Export n v (prog_bind k f)
  | EvalFile d p k => EvalFile d p (λ h, prog_bind (k h) f)
  | AsI8 h k => AsI8 h (λ y, prog_bind (k y) f)
  end.

#[global] Instance prog_ret : MRet Prog := λ A a, Ret a.
#[global] Instance prog_mbind : MBind Prog := λ A B f p, prog_bind p f.

(** The three entry points of [polyglot.h]. *)
Definition polyglot_export (name : string) (value : Z) : Prog unit :=
  Export name value (Ret tt).

Definition polyglot_eval_file (dialect path : string) : Prog handle :=
  EvalFile dialect path Ret.

Definition polyglot_as_i8 (h : handle) : Prog Z :=
  AsI8 h Ret.

(** ** The harness *)

(** The local variables of [main] when control reaches its closing brace. *)
Record locals : Type := Locals {
  x : Z;
  evaluated : handle;
  y : Z
}.

(** The body of [main], statement by statement; the value is the frame of
    locals at the end of the body. *)
Definition main_body : Prog locals :=
  let x := Int8.wrap 42 in
  polyglot_export "x" x;;
  evaluated ← polyglot_eval_file "llvm" "hello.ll";
  y ← polyglot_as_i8 evaluated;
  mret (Locals x evaluated y).

(** [void main()]: the frame is dropped, nothing is returned. *)
Definition main : Prog unit :=
  main_body;; mret tt.

(** ** Running a program against a runtime *)

(** A runtime answers each call from its process-wide state [S]: it either
    fails with an error kind or moves to a new state (and yields the
    answer). *)
Record Runtime (S : Type) : Type := {
  rt_export : string → Z → S → error + S;
  rt_eval_file : string → string → S → error + S * handle;
  rt_as_i8 : handle → S → error + S * Z
}.

Arguments rt_export {S} _ _ _ _.
Arguments rt_eval_file {S} _ _ _ _.
Arguments rt_as_i8 {S} _ _ _.

(** What one run leaves behind: the calls made, in order, each with the
    state of the runtime after it (or the error it raised), and the way
    the run ended. *)
Record outcome (S A : Type) : Type := Outcome {
  trace : list (call * (error + S));
  result : error + A
}.

Arguments Outcome {S A} trace result.
Arguments trace {S A} o.
Arguments result {S A} o.

Definition logged {S A} (c : call) (r : error + S) (o : outcome S A) : outcome S A :=
  Outcome ((c, r) :: trace o) (result o).

Definition aborted {S A} (c : call) (e : error) : outcome S A :=
  Outcome [(c, inl e)] (inl e).

(** A failing call ends the run on the spot with that error. *)
Fixpoint run {S A} (rt : Runtime S) (p : Prog A) (s : S) : outcome S A :=
  match p with
  | Ret a => Outcome [] (inr a)
  | Export n v k =>
      match rt_export rt n v s with
      | inl e => aborted (CallExport n v) e
      | inr s' => logged (CallExport n v) (inr s') (run rt k s')
      end
  | EvalFile d p k =>
      match rt_eval_file rt d p s with
      | inl e => aborted (CallEvalFile d p) e
      | inr (s', h) => logged (CallEvalFile d p) (inr s') (run rt (k h) s')
      end
  | AsI8 h k =>
      match rt_as_i8 rt h s with
      | inl e => aborted (CallAsI8 h) e
      | inr (s', z) => logged (CallAsI8 h) (inr s') (run rt (k z) s')
      end
  end.

(** The calls of a run, without the states. *)
Definition calls {S A} (o : outcome S A) : list call := (trace o).*1.

(** The runtime states a run went through, after each call that returned. *)
Definition states {S A} (o : outcome S A) : list S :=
  omap (λ cr, match cr.2 with inr s => Some s | inl _ => None end) (trace o).

(** The error a run ended with, if any. *)
Definition failure {S A} (o : outcome S A) : option error :=
  match result o with inl e => Some e | inr _ => None end.

(** ** The runtime described by the specification *)

Module Exchange.

(** Modelled from the spec: the payload of the export namespace and of
    opaque handles, absent from the sample, as the tagged variant (kind
    and payload) of the design notes. *)
Inductive value : Type :=
| VInteger (payload : Z)
| VText (payload : string)
| VVoid.

Inductive kind : Type := KInteger | KText | KVoid.

Definition kind_of (v : value) : kind :=
  match v with
  | VInteger _ => KInteger
  | VText _ => KText
  | VVoid => KVoid
  end.

(** Modelled from the spec: a runtime value is compatible with an 8-bit
    signed integer when it is of integer kind and its payload fits the
    8-bit signed range. *)
Definition compatible_int8 (v : value) : Prop :=
  match v with
  | VInteger z => Int8.in_range z
  | _ => False
  end.

(** Modelled from the spec: the External Program Unit, which the sample
    only names by path.  It is opaque: all that is known is whether it
    parses under a dialect tag, and what evaluating it yields from the
    published names it reads ([None] is an internal fault). *)
Record artifact : Type := Artifact {
  art_parses : string → bool;
  art_run : gmap string value → option value
}.

(** Modelled from the spec: the exchange context, the process-wide state
    of the embedding runtime: the export namespace, the artifacts that
    paths resolve to, and the values behind the handles that are still
    valid. *)
Record context : Type := Ctx {
  namespace : gmap string value;
  artifacts : gmap string artifact;
  live : gmap handle value;
  next_handle : handle
}.

(** A process starts with nothing published and no handle given out. *)
Definition fresh_process (fs : gmap string artifact) : context :=
  Ctx ∅ fs ∅ 1%N.

(** Modelled from the spec: [export(name, value)], the runtime side of
    [polyglot_export].  It fails when the name is already published and
    publishes the value otherwise. *)
Definition export (name : string) (v : Z) (ctx : context) : error + context :=
  match namespace ctx !! name with
  | Some _ => inl NamespaceCollisionError
  | None =>
      inr (Ctx (<[name := VInteger v]> (namespace ctx))
             (artifacts ctx) (live ctx) (next_handle ctx))
  end.

(** Modelled from the spec: the runtime-side lookup of a published name. *)
Definition lookup_export (name : string) (ctx : context) : option value :=
  namespace ctx !! name.

(** Modelled from the spec: [evaluate(dialect, path)], the runtime side of
    [polyglot_eval_file].  The path is resolved, the artifact is parsed
    under the dialect and evaluated against the published names; the
    result is kept behind a new handle.  The namespace is only read: its
    one writer is the harness. *)
Definition evaluate (dialect path : string) (ctx : context)
  : error + context * handle :=
  match artifacts ctx !! path with
  | None => inl ArtifactResolutionError
  | Some art =>
      if art_parses art dialect then
        match art_run art (namespace ctx) with
        | None => inl DialectEvaluationError
        | Some v =>
            let h := next_handle ctx in
            inr (Ctx (namespace ctx) (artifacts ctx)
                   (<[h := v]> (live ctx)) (N.succ h), h)
        end
      else inl DialectEvaluationError
  end.

(** Modelled from the spec: [coerce_to_int8(result)], the runtime side of
    [polyglot_as_i8]: a fallible narrowing match on the value behind the
    handle.  A handle is valid until it is reinterpreted, so a successful
    coercion consumes it. *)
Definition coerce_to_int8 (h : handle) (ctx : context) : error + context * Z :=
  match live ctx !! h with
  | Some (VInteger z) =>
      if Int8.in_rangeb z then
        inr (Ctx (namespace ctx) (artifacts ctx)
               (delete h (live ctx)) (next_handle ctx), z)
      else inl RepresentationMismatchError
  | Some _ | None => inl RepresentationMismatchError
  end.

Definition runtime : Runtime context :=
  {| rt_export := export;
     rt_eval_file := evaluate;
     rt_as_i8 := coerce_to_int8 |}.

(** An artifact that reads the published [name] and returns it as it is. *)
Definition returns_unchanged (name : string) (art : artifact) : Prop :=
  ∀ ns v, ns !! name = Some v → art_run art ns = Some v.

Definition echo (dialect name : string) : artifact :=
  Artifact (λ d, bool_decide (d = dialect)) (λ ns, ns !! name).


End Exchange.

(** ** Runtimes and processes used below *)


(** A process in which [hello.ll] resolves to an artifact that parses under
    ["llvm"] and hands back the published [x]. *)
Definition echo_process : Exchange.context :=
  Exchange.fresh_process {["hello.ll" := Exchange.echo "llvm" "x"]}.

(** A process in which no path resolves. *)
Definition bare_process : Exchange.context :=
  Exchange.fresh_process ∅.

(** ** The termination status of the process *)






(** * Properties *)

(** ** Native scalars *)

Lemma wrap_in_range (z : Z) : Int8.in_range (Int8.wrap z).
Proof.
  unfold Int8.in_range, Int8.wrap, Int8.min_signed, Int8.max_signed, Int8.modulus.
  pose proof (Z.mod_pos_bound (z - -128) 256). lia.
Qed.

Lemma wrap_fixes_range (z : Z) : Int8.in_range z → Int8.wrap z = z.
Proof.
  unfold Int8.in_range, Int8.wrap, Int8.min_signed, Int8.max_signed, Int8.modulus.
  intros Hz. rewrite Z.mod_small by lia. lia.
Qed.

(** ** Runs in general *)

Section Runs.

Context {S : Type} (rt : Runtime S).

Lemma result_logged {A} c r (o : outcome S A) :
  result (logged c r o) = result o.
Proof. reflexivity. Qed.

(** No program can outlive a failing call: the call that fails is the
    last one of the run, and its error is how the run ends. *)
Lemma run_failure_last {A} (p : Prog A) (s : S) c e :
  (c, inl e) ∈ trace (run rt p s) →
  result (run rt p s) = inl e ∧ last (trace (run rt p s)) = Some (c, inl e).
Proof.
  revert s. induction p as [a|n v k IH|d f k IH|h k IH]; intros s Hin; simpl in *.
  - by apply elem_of_nil in Hin.
  - destruct (rt_export rt n v s) as [e'|s']; simpl in *.
    + apply list_elem_of_singleton in Hin. by simplify_eq.
    + apply elem_of_cons in Hin as [?|Hin]; [done|].
      destruct (IH _ Hin) as [-> Hl]. by rewrite last_cons, Hl.
  - destruct (rt_eval_file rt d f s) as [e'|[s' h]]; simpl in *.
    + apply list_elem_of_singleton in Hin. by simplify_eq.
    + apply elem_of_cons in Hin as [?|Hin]; [done|].
      destruct (IH _ _ Hin) as [-> Hl]. by rewrite last_cons, Hl.
  - destruct (rt_as_i8 rt h s) as [e'|[s' z]]; simpl in *.
    + apply list_elem_of_singleton in Hin. by simplify_eq.
    + apply elem_of_cons in Hin as [?|Hin]; [done|].
      destruct (IH _ _ Hin) as [-> Hl]. by rewrite last_cons, Hl.
Qed.

(** Conversely a run only ends in an error that its last call raised. *)
Lemma run_error_raised {A} (p : Prog A) (s : S) e :
  result (run rt p s) = inl e →
  ∃ c, last (trace (run rt p s)) = Some (c, inl e).
Proof.
  revert s. induction p as [a|n v k IH|d f k IH|h k IH]; intros s Hr; simpl in *.
  - done.
  - destruct (rt_export rt n v s) as [e'|s']; simpl in *.
    + simplify_eq. by eexists.
    + destruct (IH _ Hr) as [c Hl]. exists c. by rewrite last_cons, Hl.
  - destruct (rt_eval_file rt d f s) as [e'|[s' h]]; simpl in *.
    + simplify_eq. by eexists.
    + destruct (IH _ _ Hr) as [c Hl]. exists c. by rewrite last_cons, Hl.
  - destruct (rt_as_i8 rt h s) as [e'|[s' z]]; simpl in *.
    + simplify_eq. by eexists.
    + destruct (IH _ _ Hr) as [c Hl]. exists c. by rewrite last_cons, Hl.
Qed.

(** The three shapes a run of [main] can take, by the call that fails. *)
Lemma run_main_cases (s : S) :
  let o := run rt main s in
  (∃ e, rt_export rt "x" 42 s = inl e ∧
        o = Outcome [(CallExport "x" 42, inl e)] (inl e))
  ∨ (∃ s1 e, rt_export rt "x" 42 s = inr s1 ∧
        rt_eval_file rt "llvm" "hello.ll" s1 = inl e ∧
        o = Outcome [(CallExport "x" 42, inr s1);
                     (CallEvalFile "llvm" "hello.ll", inl e)] (inl e))
  ∨ (∃ s1 s2 h r, rt_export rt "x" 42 s = inr s1 ∧
        rt_eval_file rt "llvm" "hello.ll" s1 = inr (s2, h) ∧
        o = Outcome [(CallExport "x" 42, inr s1);
                     (CallEvalFile "llvm" "hello.ll", inr s2);
                     (CallAsI8 h, r)]
              (match r with inl e => inl e | inr _ => inr tt end) ∧
        r = match rt_as_i8 rt h s2 with inl e => inl e | inr (s3, _) => inr s3 end).
Proof.
  cbn. change (Int8.wrap 42) with 42.
  destruct (rt_export rt "x" 42 s) as [e|s1] eqn:He; cbn.
  { left. by exists e. }
  right. destruct (rt_eval_file rt "llvm" "hello.ll" s1) as [e|[s2 h]] eqn:Hv; cbn.
  { left. by exists s1, e. }
  right. exists s1, s2, h.
  destruct (rt_as_i8 rt h s2) as [e|[s3 z]]; cbn;
    [exists (inl e)|exists (inr s3)]; done.
Qed.

(** [main_body], call by call. *)
Lemma run_main_body_eq (s : S) :
  run rt main_body s
  = match rt_export rt "x" 42 s with
    | inl e => aborted (CallExport "x" 42) e
    | inr s1 =>
        logged (CallExport "x" 42) (inr s1)
          match rt_eval_file rt "llvm" "hello.ll" s1 with
          | inl e => aborted (CallEvalFile "llvm" "hello.ll") e
          | inr (s2, h) =>
              logged (CallEvalFile "llvm" "hello.ll") (inr s2)
                match rt_as_i8 rt h s2 with
                | inl e => aborted (CallAsI8 h) e
                | inr (s3, z) =>
                    logged (CallAsI8 h) (inr s3)
                      (Outcome [] (inr (Locals 42 h z)))
                end
          end
    end.
Proof. reflexivity. Qed.

(** Dropping the value of a program changes neither its calls nor the
    way it ends. *)
Lemma run_drop_value {A B} (p : Prog A) (b : B) (s : S) :
  run rt (p;; mret b) s
  = Outcome (trace (run rt p s)) (sum_map id (λ _, b) (result (run rt p s))).
Proof.
  revert s. induction p as [a|n v k IH|d f k IH|h k IH]; intros s; [done|..].
  - change (run rt (Export n v k;; mret b) s)
      with (match rt_export rt n v s with
            | inl e => aborted (CallExport n v) e
            | inr s' => logged (CallExport n v) (inr s') (run rt (k;; mret b) s')
            end).
    cbn. destruct (rt_export rt n v s) as [e|s']; [done|]. by rewrite IH.
  - change (run rt (EvalFile d f k;; mret b) s)
      with (match rt_eval_file rt d f s with
            | inl e => aborted (CallEvalFile d f) e
            | inr (s', h) =>
                logged (CallEvalFile d f) (inr s') (run rt (k h;; mret b) s')
            end).
    cbn. destruct (rt_eval_file rt d f s) as [e|[s' h]]; [done|]. by rewrite IH.
  - change (run rt (AsI8 h k;; mret b) s)
      with (match rt_as_i8 rt h s with
            | inl e => aborted (CallAsI8 h) e
            | inr (s', z) =>
                logged (CallAsI8 h) (inr s') (run rt (k z;; mret b) s')
            end).
    cbn. destruct (rt_as_i8 rt h s) as [e|[s' z]]; [done|]. by rewrite IH.
Qed.

Lemma run_main_of_body (s : S) :
  run rt main s
  = Outcome (trace (run rt main_body s))
      (sum_map id (λ _, tt) (result (run rt main_body s))).
Proof. apply run_drop_value. Qed.

End Runs.

(** ** The harness against any runtime *)

(** C2: whatever the runtime answers, the calls of [main] are an initial
    segment of export, evaluation, coercion, in this order and starting
    with the export; when no call fails they are exactly these three, once
    each. *)
Theorem main_call_sequence {S} (rt : Runtime S) (s : S) :
  let cs := calls (run rt main s) in
  (∃ h, cs `prefix_of`
          [CallExport "x" 42; CallEvalFile "llvm" "hello.ll"; CallAsI8 h])
  ∧ head cs = Some (CallExport "x" 42)
  ∧ (failure (run rt main s) = None →
     ∃ h, cs = [CallExport "x" 42; CallEvalFile "llvm" "hello.ll"; CallAsI8 h]).
Proof.
  destruct (run_main_cases rt s)
    as [(e & _ & ->)|[(s1 & e & _ & _ & ->)|(s1 & s2 & h & r & _ & _ & -> & _)]];
    cbn.
  - split_and!; [|done..]. exists 0%N. by eexists [_; _].
  - split_and!; [|done..]. exists 0%N. by eexists [_].
  - split_and!; [exists h; by exists []|done|intros _; by exists h].
Qed.

Lemma main_call_sequence_witness :
  failure (run Exchange.runtime main echo_process) = None
  ∧ ∃ h, calls (run Exchange.runtime main echo_process)
         = [CallExport "x" 42; CallEvalFile "llvm" "hello.ll"; CallAsI8 h].
Proof.
  split; [vm_compute; reflexivity|].
  apply (main_call_sequence Exchange.runtime echo_process).
  vm_compute; reflexivity.
Defined.

(** C8: the harness catches nothing.  A call of [main] that fails, with
    whatever error kind, is the last call of the run and its error is the
    result of the run, and a run only ends in an error that its last call
    raised; and whatever handle the evaluation returns is handed to the
    coercion as it is, as the third call. *)
Theorem main_failures_fatal {S} (rt : Runtime S) (s : S) :
  let o := run rt main s in
  (∀ c e, (c, inl e) ∈ trace o →
          result o = inl e ∧ last (trace o) = Some (c, inl e))
  ∧ (∀ e, result o = inl e → ∃ c, last (trace o) = Some (c, inl e))
  ∧ (∀ s1 s2 h,
       rt_export rt "x" 42 s = inr s1 →
       rt_eval_file rt "llvm" "hello.ll" s1 = inr (s2, h) →
       calls o !! 2%nat = Some (CallAsI8 h)).
Proof.
  split_and!.
  - intros c e. apply run_failure_last.
  - intros e. apply run_error_raised.
  - intros s1 s2 h He Hv.
    destruct (run_main_cases rt s)
      as [(e & ? & _)|[(s1' & e & ? & ? & _)|(s1' & s2' & h' & r & ? & ? & -> & _)]];
      [congruence..|].
    replace s1' with s1 in * by congruence.
    by replace h' with h by congruence.
Qed.

Lemma main_failures_fatal_witness :
  result (run Exchange.runtime main bare_process) = inl ArtifactResolutionError
  ∧ calls (run Exchange.runtime main echo_process) !! 2%nat = Some (CallAsI8 1%N).
Proof.
  split.
  - apply (proj1 (main_failures_fatal Exchange.runtime bare_process)
             (CallEvalFile "llvm" "hello.ll") ArtifactResolutionError).
    vm_compute. apply list_elem_of_further, list_elem_of_here.
  - apply (proj2 (proj2 (main_failures_fatal Exchange.runtime echo_process))
             (Exchange.Ctx {["x" := Exchange.VInteger 42]}
                {["hello.ll" := Exchange.echo "llvm" "x"]} ∅ 1%N)
             (Exchange.Ctx {["x" := Exchange.VInteger 42]}
                {["hello.ll" := Exchange.echo "llvm" "x"]}
                {[1%N := Exchange.VInteger 42]} 2%N)
             1%N); vm_compute; reflexivity.
Defined.




(** ** The runtime of the specification *)

Import Exchange.

Lemma in_rangeb_spec (z : Z) : Int8.in_rangeb z = true ↔ Int8.in_range z.
Proof.
  unfold Int8.in_rangeb, Int8.in_range.
  rewrite andb_true_iff, !Z.leb_le. tauto.
Qed.

Lemma compatible_int8_inv (v : value) :
  compatible_int8 v ↔ ∃ z, v = VInteger z ∧ Int8.in_range z.
Proof.
  destruct v as [z|t|]; cbn; [|split; [done|by intros (? & ? & _)]..].
  split; [by exists z|]. by intros (? & [= <-] & ?).
Qed.

Section ExchangeOperations.

Implicit Types (ctx : context) (n d p : string) (h : handle) (v : value).

Lemma export_fresh ctx n z :
  namespace ctx !! n = None →
  export n z ctx
  = inr (Ctx (<[n := VInteger z]> (namespace ctx))
           (artifacts ctx) (live ctx) (next_handle ctx)).
Proof. unfold export. by intros ->. Qed.

Lemma export_bound ctx n z :
  is_Some (namespace ctx !! n) → export n z ctx = inl NamespaceCollisionError.
Proof. unfold export. by intros [w ->]. Qed.

Lemma export_inv ctx n z ctx' :
  export n z ctx = inr ctx' →
  namespace ctx !! n = None
  ∧ ctx' = Ctx (<[n := VInteger z]> (namespace ctx))
             (artifacts ctx) (live ctx) (next_handle ctx).
Proof. unfold export. destruct (namespace ctx !! n); naive_solver. Qed.

Lemma evaluate_inv ctx d p ctx' h :
  evaluate d p ctx = inr (ctx', h) →
  ∃ art v, artifacts ctx !! p = Some art
           ∧ art_parses art d = true
           ∧ art_run art (namespace ctx) = Some v
           ∧ h = next_handle ctx
           ∧ ctx' = Ctx (namespace ctx) (artifacts ctx)
                      (<[h := v]> (live ctx)) (N.succ h).
Proof.
  unfold evaluate. destruct (artifacts ctx !! p) as [art|]; [|done].
  destruct (art_parses art d) eqn:Hd; [|done].
  destruct (art_run art (namespace ctx)) as [v|] eqn:Hv; [|done].
  intros [= <- <-]. by exists art, v.
Qed.

Lemma evaluate_resolved ctx d p art v :
  artifacts ctx !! p = Some art →
  art_parses art d = true →
  art_run art (namespace ctx) = Some v →
  evaluate d p ctx
  = inr (Ctx (namespace ctx) (artifacts ctx)
           (<[next_handle ctx := v]> (live ctx)) (N.succ (next_handle ctx)),
         next_handle ctx).
Proof. unfold evaluate. by intros -> -> ->. Qed.

Lemma coerce_to_int8_inv ctx h ctx' z :
  coerce_to_int8 h ctx = inr (ctx', z) →
  live ctx !! h = Some (VInteger z)
  ∧ Int8.in_range z
  ∧ ctx' = Ctx (namespace ctx) (artifacts ctx)
             (delete h (live ctx)) (next_handle ctx).
Proof.
  unfold coerce_to_int8. destruct (live ctx !! h) as [[z'| |]|]; [|done..].
  destruct (Int8.in_rangeb z') eqn:Hz; [|done].
  intros [= <- <-]. by apply in_rangeb_spec in Hz.
Qed.

Lemma coerce_to_int8_fits ctx h z :
  live ctx !! h = Some (VInteger z) →
  Int8.in_range z →
  coerce_to_int8 h ctx
  = inr (Ctx (namespace ctx) (artifacts ctx)
           (delete h (live ctx)) (next_handle ctx), z).
Proof.
  unfold coerce_to_int8. intros -> Hz%in_rangeb_spec. by rewrite Hz.
Qed.

(** A handle is spent by the coercion that succeeds on it. *)
Lemma coerce_to_int8_consumes ctx h ctx' z :
  coerce_to_int8 h ctx = inr (ctx', z) →
  coerce_to_int8 h ctx' = inl RepresentationMismatchError.
Proof.
  intros (_ & _ & ->)%coerce_to_int8_inv.
  unfold coerce_to_int8. cbn [live]. by rewrite lookup_delete_eq.
Qed.

End ExchangeOperations.

(** C3: publishing a valid 8-bit signed integer under a name that is not
    published yet succeeds, and the runtime-side lookup of that name then
    yields the integer as it was given. *)
Theorem export_lookup_roundtrip (ctx : context) (n : string) (v : Z) :
  Int8.in_range v →
  namespace ctx !! n = None →
  ∃ ctx', export n v ctx = inr ctx' ∧ lookup_export n ctx' = Some (VInteger v).
Proof.
  intros _ Hn. eexists. split; [by apply export_fresh|].
  unfold lookup_export. cbn. apply lookup_insert_eq.
Qed.

Lemma export_lookup_roundtrip_witness :
  ∃ ctx', export "x" 42 bare_process = inr ctx'
          ∧ lookup_export "x" ctx' = Some (VInteger 42).
Proof.
  apply (export_lookup_roundtrip bare_process "x" 42).
  - unfold Int8.in_range, Int8.min_signed, Int8.max_signed. lia.
  - reflexivity.
Defined.

(** C4: once [export n v1] has returned, [export n v2] with the same name
    in the same process raises NamespaceCollisionError; a program that
    makes the two calls in a row ends with this error, raised by the
    second call. *)
Theorem export_twice_collides (ctx ctx1 : context) (n : string) (v1 v2 : Z) :
  export n v1 ctx = inr ctx1 →
  export n v2 ctx1 = inl NamespaceCollisionError
  ∧ trace (run runtime (polyglot_export n v1;; polyglot_export n v2) ctx)
    = [(CallExport n v1, inr ctx1);
       (CallExport n v2, inl NamespaceCollisionError)].
Proof.
  intros H1.
  assert (export n v2 ctx1 = inl NamespaceCollisionError) as H2.
  { apply export_inv in H1 as [_ ->]. apply export_bound. cbn.
    rewrite lookup_insert_eq. by eexists. }
  split; [done|]. cbn. by rewrite H1, H2.
Qed.

Lemma export_twice_collides_witness :
  export "x" 7 (Ctx {["x" := VInteger 42]} ∅ ∅ 1%N)
  = inl NamespaceCollisionError
  ∧ trace (run runtime (polyglot_export "x" 42;; polyglot_export "x" 7)
             bare_process)
    = [(CallExport "x" 42, inr (Ctx {["x" := VInteger 42]} ∅ ∅ 1%N));
       (CallExport "x" 7, inl NamespaceCollisionError)].
Proof.
  apply (export_twice_collides bare_process
           (Ctx {["x" := VInteger 42]} ∅ ∅ 1%N) "x" 42 7).
  reflexivity.
Defined.

(** C5: under every dialect tag, evaluating a path that resolves to no
    artifact raises ArtifactResolutionError, and so no error of another
    kind. *)
Theorem evaluate_unresolved_path (ctx : context) (d p : string) :
  artifacts ctx !! p = None →
  evaluate d p ctx = inl ArtifactResolutionError
  ∧ ∀ e, evaluate d p ctx = inl e → e = ArtifactResolutionError.
Proof.
  intros Hp. unfold evaluate. rewrite Hp. split; [done|]. by intros e [= <-].
Qed.

Lemma evaluate_unresolved_path_witness :
  evaluate "llvm" "hello.ll" bare_process = inl ArtifactResolutionError
  ∧ ∀ e, evaluate "llvm" "hello.ll" bare_process = inl e →
         e = ArtifactResolutionError.
Proof.
  apply (evaluate_unresolved_path bare_process "llvm" "hello.ll").
  reflexivity.
Defined.

(** C6: coercing a handle whose value is of a kind other than integer, or
    an integer outside the 8-bit signed range, raises
    RepresentationMismatchError; and a coercion that returns [z] had a
    value behind the handle that is compatible with an 8-bit signed
    integer, namely the integer [z]. *)
Theorem coerce_to_int8_mismatch (ctx : context) (h : handle) :
  (∀ v, live ctx !! h = Some v →
        kind_of v ≠ KInteger ∨ (∃ z, v = VInteger z ∧ ¬ Int8.in_range z) →
        coerce_to_int8 h ctx = inl RepresentationMismatchError)
  ∧ (∀ ctx' z, coerce_to_int8 h ctx = inr (ctx', z) →
               ∃ v, live ctx !! h = Some v ∧ compatible_int8 v ∧ v = VInteger z).
Proof.
  split.
  - intros v Hh Hv. unfold coerce_to_int8. rewrite Hh.
    destruct v as [z| |]; [|done..].
    destruct Hv as [?|(z' & [= <-] & Hz)]; [done|].
    destruct (Int8.in_rangeb z) eqn:Hb; [|done].
    by apply in_rangeb_spec in Hb.
  - intros ctx' z (Hh & Hz & _)%coerce_to_int8_inv. by exists (VInteger z).
Qed.

Lemma coerce_to_int8_mismatch_witness :
  coerce_to_int8 1%N (Ctx ∅ ∅ {[1%N := VText "forty-two"]} 2%N)
  = inl RepresentationMismatchError
  ∧ coerce_to_int8 1%N (Ctx ∅ ∅ {[1%N := VInteger 128]} 2%N)
    = inl RepresentationMismatchError
  ∧ ∃ v, live (Ctx ∅ ∅ {[1%N := VInteger (-128)]} 2%N) !! 1%N = Some v
         ∧ compatible_int8 v ∧ v = VInteger (-128).
Proof.
  split_and!.
  - apply (proj1 (coerce_to_int8_mismatch
                    (Ctx ∅ ∅ {[1%N := VText "forty-two"]} 2%N) 1%N)
             (VText "forty-two")); [reflexivity|].
    left. discriminate.
  - apply (proj1 (coerce_to_int8_mismatch
                    (Ctx ∅ ∅ {[1%N := VInteger 128]} 2%N) 1%N)
             (VInteger 128)); [reflexivity|].
    right. exists 128. split; [reflexivity|].
    unfold Int8.in_range, Int8.min_signed, Int8.max_signed. lia.
  - apply (proj2 (coerce_to_int8_mismatch
                    (Ctx ∅ ∅ {[1%N := VInteger (-128)]} 2%N) 1%N)
             (Ctx ∅ ∅ ∅ 2%N) (-128)).
    reflexivity.
Defined.

(** ** The harness on the runtime of the specification *)

Lemma states_logged {S A} c (s : S) (o : outcome S A) :
  states (logged c (inr s) o) = s :: states o.
Proof. reflexivity. Qed.

Lemma states_aborted {S A} c e : states (@aborted S A c e) = [].
Proof. reflexivity. Qed.

(** From the export on, the namespace is the initial one with [x] bound
    to 42: neither the evaluation nor the coercion writes to it. *)
Lemma main_body_namespace (ctx : context) :
  Forall (λ c, namespace c = <["x" := VInteger 42]> (namespace ctx))
    (states (run runtime main_body ctx)).
Proof.
  rewrite run_main_body_eq. cbn [rt_export rt_eval_file rt_as_i8 runtime].
  destruct (export "x" 42 ctx) as [e|ctx1] eqn:He; [by rewrite states_aborted|].
  apply export_inv in He as [_ ->]. rewrite states_logged.
  constructor; [done|].
  match goal with |- context [evaluate ?d ?p ?c] =>
    destruct (evaluate d p c) as [e|[ctx2 h]] eqn:Hv end;
    [by rewrite states_aborted|].
  apply evaluate_inv in Hv as (art & v & _ & _ & _ & -> & ->).
  rewrite states_logged. constructor; [done|].
  match goal with |- context [coerce_to_int8 ?h ?c] =>
    destruct (coerce_to_int8 h c) as [e|[ctx3 z]] eqn:Hc end;
    [by rewrite states_aborted|].
  apply coerce_to_int8_inv in Hc as (_ & _ & ->).
  rewrite states_logged. by repeat constructor.
Qed.

(** The run of the harness when [x] is free, the artifact resolves, parses
    and hands back a value that fits. *)
Lemma main_body_succeeds (ctx : context) (art : artifact) (z : Z) :
  namespace ctx !! "x" = None →
  artifacts ctx !! "hello.ll" = Some art →
  art_parses art "llvm" = true →
  art_run art (<["x" := VInteger 42]> (namespace ctx)) = Some (VInteger z) →
  Int8.in_range z →
  result (run runtime main_body ctx) = inr (Locals 42 (next_handle ctx) z).
Proof.
  intros Hx Ha Hp Hr Hz.
  rewrite run_main_body_eq. cbn [rt_export rt_eval_file rt_as_i8 runtime].
  rewrite (export_fresh _ _ _ Hx), result_logged.
  erewrite evaluate_resolved by eauto. rewrite result_logged.
  erewrite coerce_to_int8_fits; [done| |done].
  cbn. apply lookup_insert_eq.
Qed.

(** What a run of the harness that came to its end went through. *)
Lemma main_body_returned (ctx : context) (l : locals) :
  result (run runtime main_body ctx) = inr l →
  ∃ art,
    namespace ctx !! "x" = None
    ∧ artifacts ctx !! "hello.ll" = Some art
    ∧ art_parses art "llvm" = true
    ∧ art_run art (<["x" := VInteger 42]> (namespace ctx)) = Some (VInteger (y l))
    ∧ Int8.in_range (y l)
    ∧ x l = 42
    ∧ evaluated l = next_handle ctx
    ∧ calls (run runtime main_body ctx)
      = [CallExport "x" 42; CallEvalFile "llvm" "hello.ll"; CallAsI8 (evaluated l)].
Proof.
  rewrite run_main_body_eq. cbn [rt_export rt_eval_file rt_as_i8 runtime].
  destruct (export "x" 42 ctx) as [e|ctx1] eqn:He; [done|].
  apply export_inv in He as [Hx ->].
  match goal with |- context [evaluate ?d ?p ?c] =>
    destruct (evaluate d p c) as [e|[ctx2 h]] eqn:Hv end; [done|].
  apply evaluate_inv in Hv as (art & v & Ha & Hp & Hr & -> & ->).
  match goal with |- context [coerce_to_int8 ?h ?c] =>
    destruct (coerce_to_int8 h c) as [e|[ctx3 z]] eqn:Hc end; [done|].
  apply coerce_to_int8_inv in Hc as (Hl & Hz & _).
  cbn in Hl, Ha, Hr. rewrite lookup_insert_eq in Hl. simplify_eq.
  intros [= <-]. exists art. by split_and!.
Qed.

(** C1: [main] exports 42 under ["x"], evaluates ["hello.ll"] under
    ["llvm"] and coerces the result to the scalar [y].  With an artifact
    that hands back the exported [x] unchanged, a run in which no call
    fails made exactly these three calls and ends with [y] equal to 42;
    and no call fails when [x] is not published yet and the artifact
    parses under ["llvm"]. *)
Theorem main_end_to_end (ctx : context) (art : artifact) :
  artifacts ctx !! "hello.ll" = Some art →
  returns_unchanged "x" art →
  let o := run runtime main_body ctx in
  (∀ l, result o = inr l →
        x l = 42 ∧ y l = 42
        ∧ calls (run runtime main ctx)
          = [CallExport "x" 42; CallEvalFile "llvm" "hello.ll";
             CallAsI8 (evaluated l)]
        ∧ result (run runtime main ctx) = inr tt)
  ∧ (namespace ctx !! "x" = None →
     art_parses art "llvm" = true →
     result o = inr (Locals 42 (next_handle ctx) 42)).
Proof.
  intros Ha Hecho o.
  assert (art_run art (<["x" := VInteger 42]> (namespace ctx))
          = Some (VInteger 42)) as Hr.
  { apply Hecho, lookup_insert_eq. }
  split.
  - intros l Hl. rewrite run_main_of_body. fold o. rewrite Hl.
    apply main_body_returned in Hl
      as (art' & _ & Ha' & _ & Hr' & _ & Hx & _ & Hcalls).
    replace art' with art in * by congruence.
    split_and!; [done|congruence|done|done].
  - intros Hx Hp. by apply (main_body_succeeds ctx art 42).
Qed.

Lemma main_end_to_end_witness :
  result (run runtime main_body echo_process) = inr (Locals 42 1%N 42)
  ∧ y (Locals 42 1%N 42) = 42
  ∧ calls (run runtime main echo_process)
    = [CallExport "x" 42; CallEvalFile "llvm" "hello.ll"; CallAsI8 1%N].
Proof.
  assert (artifacts echo_process !! "hello.ll" = Some (echo "llvm" "x")) as Ha
    by reflexivity.
  assert (returns_unchanged "x" (echo "llvm" "x")) as He
    by (intros ns v Hv; exact Hv).
  destruct (main_end_to_end echo_process (echo "llvm" "x") Ha He) as [H1 H2].
  split; [apply H2; reflexivity|].
  destruct (H1 (Locals 42 1%N 42) (H2 eq_refl eq_refl)) as (_ & Hy & Hc & _).
  split; [exact Hy|exact Hc].
Defined.

(** C7: the harness writes to the export namespace once.  Against every
    runtime, exactly one of the calls of [main] is an export, that of 42
    under ["x"].  On the runtime of the specification every state the
    process goes through from the export on has the initial namespace with
    the one binding of ["x"] to 42 added, so a lookup of ["x"] yields 42
    throughout; and when ["x"] is free at the start the export takes place. *)
Theorem exported_scalar_written_once :
  (∀ S (rt : Runtime S) (s : S),
     List.filter is_export (calls (run rt main s)) = [CallExport "x" 42])
  ∧ (∀ ctx : context,
       Forall (λ c, namespace c = <["x" := VInteger 42]> (namespace ctx)
                    ∧ lookup_export "x" c = Some (VInteger 42))
         (states (run runtime main ctx))
       ∧ (namespace ctx !! "x" = None →
          head (states (run runtime main ctx))
          = Some (Ctx (<["x" := VInteger 42]> (namespace ctx))
                    (artifacts ctx) (live ctx) (next_handle ctx)))).
Proof.
  split.
  - intros S rt s.
    destruct (run_main_cases rt s)
      as [(e & _ & ->)|[(s1 & e & _ & _ & ->)|(s1 & s2 & h & r & _ & _ & -> & _)]];
      reflexivity.
  - intros ctx. split.
    + rewrite run_main_of_body. unfold states at 1. cbn [trace].
      fold (states (run runtime main_body ctx)).
      eapply Forall_impl; [apply main_body_namespace|].
      intros c Hc. split; [done|].
      unfold lookup_export. rewrite Hc. apply lookup_insert_eq.
    + intros Hx. rewrite run_main_of_body, run_main_body_eq.
      cbn [rt_export rt_eval_file rt_as_i8 runtime].
      by rewrite (export_fresh _ _ _ Hx).
Qed.

Lemma exported_scalar_written_once_witness :
  head (states (run runtime main echo_process))
  = Some (Ctx {["x" := VInteger 42]}
            {["hello.ll" := echo "llvm" "x"]} ∅ 1%N).
Proof.
  apply (proj2 (proj2 exported_scalar_written_once echo_process)).
  reflexivity.
Defined.

(** A second run of the harness in the process of a first one finds [x]
    published and stops at the export: the namespace is state of the
    process. *)
Lemma main_rerun_same_process (ctx ctx' : context) :
  ctx' ∈ states (run runtime main_body ctx) →
  run runtime main ctx'
  = Outcome [(CallExport "x" 42, inl NamespaceCollisionError)]
      (inl NamespaceCollisionError).
Proof.
  intros Hin.
  pose proof (main_body_namespace ctx) as Hns.
  rewrite Forall_forall in Hns. apply Hns in Hin.
  rewrite run_main_of_body, run_main_body_eq.
  cbn [rt_export rt_eval_file rt_as_i8 runtime].
  rewrite export_bound; [done|].
  rewrite Hin, lookup_insert_eq. by eexists.
Qed.





(** ** Further properties of the harness, against any runtime *)

(** X1: how the three statements of [main] compose.  The body comes to its
    end with frame [l] exactly when the export returns, the evaluation
    returns in the state the export left, and the coercion of the handle
    the evaluation gave returns in the state the evaluation left; [l] then
    holds 42, that handle and the coerced scalar, and the runtime went
    through these three states and no other. *)
Theorem main_body_returns_iff {S} (rt : Runtime S) (s : S) (l : locals) :
  (result (run rt main_body s) = inr l
   ↔ ∃ s1 s2 s3,
       rt_export rt "x" 42 s = inr s1
       ∧ rt_eval_file rt "llvm" "hello.ll" s1 = inr (s2, evaluated l)
       ∧ rt_as_i8 rt (evaluated l) s2 = inr (s3, y l)
       ∧ x l = 42)
  ∧ (∀ s1 s2 s3,
       rt_export rt "x" 42 s = inr s1 →
       rt_eval_file rt "llvm" "hello.ll" s1 = inr (s2, evaluated l) →
       rt_as_i8 rt (evaluated l) s2 = inr (s3, y l) →
       states (run rt main s) = [s1; s2; s3]).
Proof.
  split.
  - rewrite run_main_body_eq. split.
    + destruct (rt_export rt "x" 42 s) as [e|s1]; [done|].
      destruct (rt_eval_file rt "llvm" "hello.ll" s1) as [e|[s2 h]] eqn:Hv;
        [done|].
      destruct (rt_as_i8 rt h s2) as [e|[s3 z]] eqn:Hc; [done|].
      intros [= <-]. by exists s1, s2, s3.
    + intros (s1 & s2 & s3 & -> & Hv & Hc & Hx). cbn.
      rewrite Hv. cbn. rewrite Hc. cbn.
      destruct l as [lx le ly]. cbn in Hx. by rewrite Hx.
  - intros s1 s2 s3 He Hv Hc.
    rewrite run_main_of_body, run_main_body_eq, He, Hv, Hc. reflexivity.
Qed.

Lemma main_body_returns_iff_witness :
  result (run Exchange.runtime main_body echo_process) = inr (Locals 42 1%N 42)
  ∧ states (run Exchange.runtime main echo_process)
    = [Ctx {["x" := VInteger 42]} {["hello.ll" := echo "llvm" "x"]} ∅ 1%N;
       Ctx {["x" := VInteger 42]} {["hello.ll" := echo "llvm" "x"]}
         {[1%N := VInteger 42]} 2%N;
       Ctx {["x" := VInteger 42]} {["hello.ll" := echo "llvm" "x"]}
         (delete 1%N {[1%N := VInteger 42]}) 2%N].
Proof.
  destruct (main_body_returns_iff Exchange.runtime echo_process
              (Locals 42 1%N 42)) as [Hiff Hst].
  split.
  - apply Hiff. eexists _, _, _. split_and!; reflexivity.
  - apply Hst; reflexivity.
Defined.

(** X2: the error behaviour of [main].  The run ends with error [e]
    exactly when the export raises [e], or the export returns and the
    evaluation raises [e], or both return and the coercion raises [e]: the
    harness masks no failure of a call it reaches and adds none of its
    own. *)
Theorem main_fails_iff {S} (rt : Runtime S) (s : S) (e : error) :
  result (run rt main s) = inl e
  ↔ rt_export rt "x" 42 s = inl e
    ∨ (∃ s1, rt_export rt "x" 42 s = inr s1
             ∧ rt_eval_file rt "llvm" "hello.ll" s1 = inl e)
    ∨ (∃ s1 s2 h, rt_export rt "x" 42 s = inr s1
                  ∧ rt_eval_file rt "llvm" "hello.ll" s1 = inr (s2, h)
                  ∧ rt_as_i8 rt h s2 = inl e).
Proof.
  rewrite run_main_of_body, run_main_body_eq. split.
  - destruct (rt_export rt "x" 42 s) as [e'|s1]; [intros [= ->]; by left|].
    destruct (rt_eval_file rt "llvm" "hello.ll" s1) as [e'|[s2 h]] eqn:Hv;
      [intros [= ->]; right; left; by exists s1|].
    destruct (rt_as_i8 rt h s2) as [e'|[s3 z]] eqn:Hc; [|done].
    intros [= ->]. right; right. by exists s1, s2, h.
  - intros [->|[(s1 & -> & Hv)|(s1 & s2 & h & -> & Hv & Hc)]]; [done|..].
    + cbn. by rewrite Hv.
    + cbn. rewrite Hv. cbn. by rewrite Hc.
Qed.

Lemma main_fails_iff_witness :
  result (run Exchange.runtime main bare_process) = inl ArtifactResolutionError.
Proof.
  apply (main_fails_iff Exchange.runtime bare_process ArtifactResolutionError).
  right. left. eexists. split; reflexivity.
Defined.

(** X3: the harness coerces only what it was given, and once.  A handle
    that [main] passes to the coercion is the one the evaluation returned,
    in the state the export left, and no other coercion is called in the
    run. *)
Theorem main_coerces_given_handle {S} (rt : Runtime S) (s : S) (h : handle) :
  CallAsI8 h ∈ calls (run rt main s) →
  (∃ s1 s2, rt_export rt "x" 42 s = inr s1
            ∧ rt_eval_file rt "llvm" "hello.ll" s1 = inr (s2, h))
  ∧ List.filter is_as_i8 (calls (run rt main s)) = [CallAsI8 h].
Proof.
  destruct (run_main_cases rt s)
    as [(e & _ & ->)|[(s1 & e & _ & _ & ->)|(s1 & s2 & h' & r & He & Hv & -> & _)]];
    cbn; intros Hin.
  - apply list_elem_of_singleton in Hin. done.
  - apply elem_of_cons in Hin as [?|Hin]; [done|].
    apply list_elem_of_singleton in Hin. done.
  - apply elem_of_cons in Hin as [?|Hin]; [done|].
    apply elem_of_cons in Hin as [?|Hin]; [done|].
    apply list_elem_of_singleton in Hin. injection Hin as ->.
    split; [by exists s1, s2|done].
Qed.

Lemma main_coerces_given_handle_witness :
  (∃ s1 s2, export "x" 42 echo_process = inr s1
            ∧ evaluate "llvm" "hello.ll" s1 = inr (s2, 1%N))
  ∧ List.filter is_as_i8 (calls (run Exchange.runtime main echo_process))
    = [CallAsI8 1%N].
Proof.
  apply (main_coerces_given_handle Exchange.runtime echo_process 1%N).
  vm_compute. apply list_elem_of_further, list_elem_of_further, list_elem_of_here.
Defined.
